(** * gover: the version-control driver of [vcs.go]

    A shallow embedding of [vcs.go]: the backend descriptor [vcsCmd], the
    version parser, the existence test, [create], [checkout] and the
    subprocess runner [run1], together with the properties the design
    document states about them.

    Go strings are byte sequences and are modelled by [string] (a list of
    8-bit [ascii]); [[]byte] is [list Byte.byte], with [nil] as the empty
    list; [map[string]string] is [gmap string string].  Calls that leave
    the process ([os.Stat], [exec.LookPath], [Cmd.Run],
    [log.Printf], [os.Stderr.Write]) are the operations of a small free
    monad, run against an arbitrary world that answers them; the run records
    every call with its answer. *)

From Stdlib Require Import String Ascii NArith List Lia.
From stdpp Require Import base decidable option list strings gmap.

Local Open Scope string_scope.
Local Open Scope list_scope.

(** ** The parts of Go's [strings] package the driver uses *)

Module strings.

(** [strings.HasPrefix]: [len(s) >= len(prefix) && s[:len(prefix)] == prefix]. *)
Definition HasPrefix (s prefix : string) : bool :=
  (String.length prefix <=? String.length s)%nat
  && String.eqb (substring 0 (String.length prefix) s) prefix.

(** [s[n:]].  Go panics when [n > len(s)]; the only use in [vcs.go] is
    guarded by [HasPrefix], see [HasPrefix_length]. *)
Fixpoint slice_from (s : string) (n : nat) : string :=
  match n, s with
  | S n', String _ s' => slice_from s' n'
  | _, _ => s
  end.

Definition code (c : ascii) : N := N_of_ascii c.

(** The table [asciiSpace]: tab, line feed, vertical tab, form feed,
    carriage return, space. *)
Definition asciiSpace (c : ascii) : bool :=
  bool_decide (code c ∈ [9; 10; 11; 12; 13; 32]%N).

(** Number of bytes of the white-space rune that starts [s], 0 when [s]
    does not start with one.  [strings.Fields] splits around
    [unicode.IsSpace] runes; besides [asciiSpace] these are U+0085,
    U+00A0, U+1680, U+2000..U+200A, U+2028, U+2029, U+202F, U+205F and
    U+3000, here in their UTF-8 encodings.  A lead byte is never part of
    the preceding rune, so the decoder stops at each of them. *)
Definition space_width (s : string) : nat :=
  match s with
  | String a t =>
      if asciiSpace a then 1
      else
        match code a, t with
        | 194%N, String b _ =>
            if bool_decide (code b ∈ [133; 160]%N) then 2 else 0
        | 225%N, String b (String c _) =>
            if bool_decide (code b = 154%N ∧ code c = 128%N) then 3 else 0
        | 226%N, String b (String c _) =>
            if bool_decide
                 ((code b = 128%N
                   ∧ ((128 ≤ code c)%N ∧ (code c ≤ 138)%N
                      ∨ code c ∈ [168; 169; 175]%N))
                  ∨ (code b = 129%N ∧ code c = 159%N))
            then 3 else 0
        | 227%N, String b (String c _) =>
            if bool_decide (code b = 128%N ∧ code c = 128%N) then 3 else 0
        | _, _ => 0
        end
  | EmptyString => 0
  end.

(** A field under construction is closed when it is not empty. *)
Definition flush (cur : string) : list string :=
  if String.eqb cur "" then [] else [cur].

(** The scan of [strings.Fields]: [skip] counts the remaining bytes of a
    white-space rune, [cur] is the field read so far. *)
Fixpoint fields_scan (s : string) (skip : nat) (cur : string) : list string :=
  match s with
  | EmptyString => flush cur
  | String c rest =>
      match skip with
      | S k => fields_scan rest k cur
      | O =>
          match space_width s with
          | O => fields_scan rest 0 (cur +:+ String c "")
          | S k => flush cur ++ fields_scan rest k ""
          end
      end
  end.

(** [strings.Fields]: the maximal runs of non-white-space bytes of [s]. *)
Definition Fields (s : string) : list string := fields_scan s 0 "".

(** [strings.Join]. *)
Definition Join (elems : list string) (sep : string) : string :=
  String.concat sep elems.

(** [strings.Replace(s, old, new, -1)] for a non-empty [old]: every
    non-overlapping occurrence of [old], leftmost first.  [skip] counts the
    bytes of an occurrence still to be dropped. *)
Fixpoint replace_scan (old new : string) (skip : nat) (s : string) : string :=
  match s with
  | EmptyString => ""
  | String c rest =>
      match skip with
      | S k => replace_scan old new k rest
      | O =>
          if HasPrefix s old
          then new +:+ replace_scan old new (String.length old - 1) rest
          else String c (replace_scan old new 0 rest)
      end
  end.

Definition ReplaceAll (s old new : string) : string :=
  replace_scan old new 0 s.

End strings.

(** ** Values *)

(** [[]byte]; [nil] and the empty slice are both [[]]. *)
Abbreviation bytes := (list Byte.byte).

(** Go [error] values, as far as the driver can tell them apart: it only
    compares with [nil] and asks [os.IsNotExist]. *)
Inductive error : Type :=
| ErrNotExist                 (* the entry is absent (ENOENT) *)
| ErrPermission               (* access denied (EACCES) *)
| ErrNotFound                 (* exec.ErrNotFound: no executable on the search path *)
| ExitError (status : N)      (* the child exited with a non-zero status *)
| ErrOther (msg : string).    (* any other failure *)

(** [os.IsNotExist]. *)
Definition IsNotExist (err : error) : bool :=
  match err with
  | ErrNotExist => true
  | _ => false
  end.

(** An [exec.Cmd] as [run1] fills it in: [exec.Command(name, args...)], then
    [Dir] and [Env]; [Stdout] and [Stderr] both point to the one buffer whose
    content the call [cmd_Run] answers.  [Args] are the arguments after the
    program name. *)
Record Cmd : Type := Command {
  Name : string;
  Args : list string;
  Dir : string;
  Env : list string
}.

(** ** Calls into the operating system *)

Inductive call : Type :=
| os_Stat (name : string)
| exec_LookPath (file : string)
| cmd_Run (c : Cmd)
| log_Printf (line : string)
| Stderr_Write (b : bytes).

(** What a call answers.  The [FileInfo] of [os.Stat] and the path of
    [exec.LookPath] are dropped by every caller in [vcs.go], so only their
    [error] is kept; [cmd_Run] answers the combined output and the error. *)
Definition result_of (c : call) : Type :=
  match c with
  | os_Stat _ => option error
  | exec_LookPath _ => option error
  | cmd_Run _ => (bytes * option error)%type
  | log_Printf _ => unit
  | Stderr_Write _ => unit
  end.

(** One call together with its answer. *)
Inductive event : Type :=
| Ev (c : call) (r : result_of c).

(** The world answers a call knowing everything that happened before. *)
Definition World : Type := list event → ∀ c : call, result_of c.

(** Programs: return, panic (a Go run-time panic), or call and go on. *)
Inductive Prog (A : Type) : Type :=
| Ret (a : A)
| Panic (msg : string)
| Do (c : call) (k : result_of c → Prog A).
Arguments Ret {A} a.
Arguments Panic {A} msg.
Arguments Do {A} c k.

Fixpoint Prog_bind {A B : Type} (f : A → Prog B) (p : Prog A) : Prog B :=
  match p with
  | Ret a => f a
  | Panic msg => Panic msg
  | Do c k => Do c (λ r, Prog_bind f (k r))
  end.

#[export] Instance Prog_mret : MRet Prog := @Ret.
#[export] Instance Prog_mbind : MBind Prog := @Prog_bind.

Definition sys (c : call) : Prog (result_of c) := Do c Ret.

Inductive outcome (A : Type) : Type :=
| Returned (a : A)
| Panicked (msg : string).
Arguments Returned {A} a.
Arguments Panicked {A} msg.

(** Running a program in world [w] after the events [h]: the outcome and the
    events so far, oldest first. *)
Fixpoint exec {A : Type} (w : World) (p : Prog A) (h : list event)
  : outcome A * list event :=
  match p with
  | Ret a => (Returned a, h)
  | Panic msg => (Panicked msg, h)
  | Do c k => exec w (k (w h c)) (h ++ [Ev c (w h c)])
  end.

(** The subprocesses started, in order, each with what [Run] answered. *)
Definition runs (t : list event) : list (Cmd * (bytes * option error)) :=
  flat_map (λ e, match e return list (Cmd * (bytes * option error)) with
                 | Ev (cmd_Run c) r => [(c, r)]
                 | _ => []
                 end) t.

Definition spawned (t : list event) : list Cmd := fst <$> runs t.

(** The tool lookups made, in order, each with its answer. *)
Definition lookups (t : list event) : list (string * option error) :=
  flat_map (λ e, match e return list (string * option error) with
                 | Ev (exec_LookPath file) r => [(file, r)]
                 | _ => []
                 end) t.

(** The lines handed to [log.Printf], in order. *)
Definition log_lines (t : list event) : list string :=
  flat_map (λ e, match e with Ev (log_Printf line) _ => [line] | _ => [] end) t.

(** What was written to [os.Stderr], in order. *)
Definition stderr_writes (t : list event) : list bytes :=
  flat_map (λ e, match e with Ev (Stderr_Write b) _ => [b] | _ => [] end) t.

(** The lookups that failed, and the subprocesses whose [Run] answered an
    error, each with the captured output. *)
Definition failed_lookups (t : list event) : list string :=
  omap (λ lr : string * option error,
          match lr.2 with Some _ => Some lr.1 | None => None end) (lookups t).

Definition failed_runs (t : list event) : list (Cmd * bytes) :=
  omap (λ cr : Cmd * (bytes * option error),
          match cr.2.2 with Some _ => Some (cr.1, cr.2.1) | None => None end)
       (runs t).

(** A list of key/value pairs as the flat sequence that [run] and its
    variants take. *)
Definition keyvals (pairs : list (string * string)) : list string :=
  flat_map (λ kv, [kv.1; kv.2]) pairs.

(** The loop [for _, x := range l { s = body(s, x) }]. *)
Fixpoint for_range {X S : Type} (l : list X) (body : S → X → Prog S) (s : S)
  : Prog S :=
  match l with
  | [] => Ret s
  | x :: l' => s' ← body s x; for_range l' body s'
  end.

(** ** The backend descriptor *)

Record vcsCmd : Type := {
  name : string;
  cmd : string;          (* name of binary to invoke command *)
  meta : string;         (* name of meta directory *)
  createCmd : string;    (* command to download a fresh copy of a repository *)
  downloadCmd : string;  (* command to download updates into an existing repository *)
  checkoutCmd : string
}.

(** vcsGit describes how to use Git. *)
Definition vcsGit : vcsCmd := {|
  name := "Git";
  cmd := "git";
  meta := ".git";
  createCmd := "clone {repo} {dir} -b {branch}";
  downloadCmd := "checkout -f tags/{tag}";
  checkoutCmd := "checkout {version}"
|}.

(** vcsList lists the known version control systems. *)
Definition vcsList : list vcsCmd := [vcsGit].

(** vcsByCmd returns the version control system for the given command name;
    [None] is Go's [nil]. *)
Definition vcsByCmd (c : string) : option vcsCmd :=
  List.find (λ vcs, String.eqb (cmd vcs) c) vcsList.

Definition getVcsByUrl (url : string) : vcsCmd := vcsGit.

Definition parseVersion (v : vcsCmd) (version : string) : string * string :=
  if strings.HasPrefix version "sha:"
  then ("master", strings.slice_from version 4)
  else (version, "").

(** The line feed that ends the log formats. *)
Definition LF : string := String (ascii_of_nat 10) "".

(** ** Instances of what [vcs.go] leaves open

    [vcs.go] calls two functions of its package that are defined in another
    file, [expand] and [envForDir]; the driver below takes them as
    parameters.  [Model] gives one instance of each, and sample worlds, to
    run the driver on concrete inputs. *)
Module Model.

(** Modelled from the spec: [expand], the placeholder substitution that
    [run1] applies to every token, is not in [vcs.go].  The design document
    describes it as the textual substitution of [{key}] placeholders inside
    one token, a placeholder without a key staying as it is: every
    occurrence of [{k}] is replaced by the value of [k], for each key [k] of
    the mapping. *)
Definition expand (m : gmap string string) (s : string) : string :=
  foldr (λ kv acc, strings.ReplaceAll acc ("{" +:+ kv.1 +:+ "}") kv.2)
        s (map_to_list m).

(** Modelled from the spec: [envForDir] is not in [vcs.go].  The design
    document only says that the child inherits the environment of the
    caller; the instance here hands over the variable [PWD] alone. *)
Definition envForDir (dir : string) : list string := ["PWD=" +:+ dir].

(** [path.Join] on two clean, non-empty elements. *)
Definition path_Join (a b : string) : string := a +:+ "/" +:+ b.

(** Three worlds: every call succeeds, the tool printing "ok"; the tool is
    not on the search path; the tool runs and fails after printing
    "fatal". *)
Definition world_ok : World := λ _ c,
  match c return result_of c with
  | os_Stat _ => None
  | exec_LookPath _ => None
  | cmd_Run _ => ([Byte.x6f; Byte.x6b], None)
  | log_Printf _ => tt
  | Stderr_Write _ => tt
  end.

Definition world_no_tool : World := λ _ c,
  match c return result_of c with
  | os_Stat _ => Some ErrNotExist
  | exec_LookPath _ => Some ErrNotFound
  | cmd_Run _ => ([], None)
  | log_Printf _ => tt
  | Stderr_Write _ => tt
  end.

Definition world_failing : World := λ _ c,
  match c return result_of c with
  | os_Stat _ => Some ErrPermission
  | exec_LookPath _ => None
  | cmd_Run _ => ([Byte.x66; Byte.x61; Byte.x74; Byte.x61; Byte.x6c],
                  Some (ExitError 128))
  | log_Printf _ => tt
  | Stderr_Write _ => tt
  end.

End Model.

Section Driver.

(** [expand], [envForDir]: functions of the package that live in another
    file; [path_Join]: Go's [path.Join].  The driver is verified for every
    choice of them. *)
Variable expand : gmap string string → string → string.
Variable envForDir : string → list string.
Variable path_Join : string → string → string.

Definition exists_ (v : vcsCmd) (dst : string) : Prog bool :=
  err ← sys (os_Stat (path_Join dst (meta v)));
  mret (match err with
        | None => true
        | Some e => negb (IsNotExist e)
        end).

(** Indices visited by [for i := 0; i < n; i += 2]. *)
Definition loop_indices (n : nat) : list nat :=
  List.filter Nat.even (seq 0 n).

(** [m[keyval[i]] = keyval[i+1]]; an index past the end panics. *)
Definition pair_step (keyval : list string) (m : gmap string string) (i : nat)
  : Prog (gmap string string) :=
  match keyval !! i, keyval !! (i + 1) with
  | Some k, Some val => Ret (<[k := val]> m)
  | _, _ => Panic "index out of range"
  end.

(** The first loop of [run1]. *)
Definition pairing (keyval : list string) : Prog (gmap string string) :=
  for_range (loop_indices (length keyval)) (pair_step keyval) ∅.

Definition missing_line (v : vcsCmd) : string :=
  "gover: missing " +:+ name v
    +:+ " command. See http://golang.org/s/gogetcmd" +:+ LF.

Definition failure_line (v : vcsCmd) (dir : string) (args : list string)
  : string :=
  "# cd " +:+ dir +:+ "; " +:+ cmd v +:+ " " +:+ strings.Join args " " +:+ LF.

(** run1 is the generalized implementation of run and runOutput. *)
Definition run1 (v : vcsCmd) (dir cmdline : string) (keyval : list string)
    (verbose : bool) : Prog (bytes * option error) :=
  m ← pairing keyval;
  let args := expand m <$> strings.Fields cmdline in
  err ← sys (exec_LookPath (cmd v));
  match err with
  | Some e =>
      _ ← sys (log_Printf (missing_line v));
      mret ([], Some e)
  | None =>
      let c := {| Name := cmd v; Args := args; Dir := dir;
                  Env := envForDir dir |} in
      '(out, err) ← sys (cmd_Run c);
      match err with
      | Some e =>
          _ ← (if verbose
               then _ ← sys (log_Printf (failure_line v dir args));
                    sys (Stderr_Write out)
               else mret tt);
          mret ([], Some e)
      | None => mret (out, None)
      end
  end.

(** run runs the command line cmd in the given directory. *)
Definition run (v : vcsCmd) (dir cmdline : string) (keyval : list string)
  : Prog (option error) :=
  '(_, err) ← run1 v dir cmdline keyval true;
  mret err.

(** runVerboseOnly is like run but only generates error output in verbose
    mode. *)
Definition runVerboseOnly (v : vcsCmd) (dir cmdline : string)
    (keyval : list string) : Prog (option error) :=
  '(_, err) ← run1 v dir cmdline keyval false;
  mret err.

(** runOutput is like run but returns the output of the command. *)
Definition runOutput (v : vcsCmd) (dir cmdline : string)
    (keyval : list string) : Prog (bytes * option error) :=
  run1 v dir cmdline keyval true.

(** create creates a new copy of repo in dir. *)
Definition create (v : vcsCmd) (dir repo version : string)
  : Prog (option error) :=
  let '(tag, commit) := parseVersion v version in
  err ← run v "." (createCmd v) ["dir"; dir; "repo"; repo; "branch"; tag];
  match err with
  | Some e => mret (Some e)
  | None =>
      if bool_decide (commit ≠ "")
      then run v dir (checkoutCmd v) ["version"; commit]
      else mret None
  end.

(** checkout switches repository on specified version. *)
Definition checkout (v : vcsCmd) (dir version : string)
  : Prog (option error) :=
  let '(tag, commit) := parseVersion v version in
  if bool_decide (commit ≠ "")
  then run v dir (checkoutCmd v) ["version"; commit]
  else run v dir (downloadCmd v) ["tag"; tag].


(** *** The runner as the design document describes it

    Executing [template] in [dir] under the mapping [m], in world [w] after
    the events [h] (design document, 4.3): the tokens of the template are
    expanded one by one; the tool is looked up, and a failed lookup is
    logged and returned at once; otherwise the tool is started in [dir],
    and a failure is returned without the output, after a log line and the
    output on the diagnostic stream when [verbose] is set.  The result is
    what the runner returns together with the events so far;
    [run1_refines] shows that [run1] does exactly this. *)
Definition spec_execute (w : World) (v : vcsCmd) (dir template : string)
    (m : gmap string string) (verbose : bool) (h : list event)
  : (bytes * option error) * list event :=
  let args := expand m <$> strings.Fields template in
  let look := exec_LookPath (cmd v) in
  match w h look with
  | Some e =>
      (([], Some e),
       h ++ [Ev look (Some e); Ev (log_Printf (missing_line v)) tt])
  | None =>
      let h1 := h ++ [Ev look None] in
      let c := {| Name := cmd v; Args := args; Dir := dir;
                  Env := envForDir dir |} in
      let '(out, err) := w h1 (cmd_Run c) in
      let h2 := h1 ++ [Ev (cmd_Run c) (out, err)] in
      match err with
      | Some e =>
          (([], Some e),
           if verbose
           then h2 ++ [Ev (log_Printf (failure_line v dir args)) tt;
                       Ev (Stderr_Write out) tt]
           else h2)
      | None => ((out, None), h2)
      end
  end.

(** ** Running programs *)

Lemma exec_bind {A B : Type} (w : World) (p : Prog A) (f : A → Prog B) h :
  exec w (p ≫= f) h =
    match exec w p h with
    | (Returned a, h') => exec w (f a) h'
    | (Panicked msg, h') => (Panicked msg, h')
    end.
Proof.
  revert h. induction p as [a|msg|c k IH]; intros h; simpl; auto.
Qed.

Lemma exec_ret {A : Type} (w : World) (a : A) h :
  exec w (mret a) h = (Returned a, h).
Proof. reflexivity. Qed.

Lemma exec_sys (w : World) (c : call) h :
  exec w (sys c) h = (Returned (w h c), h ++ [Ev c (w h c)]).
Proof. reflexivity. Qed.

Lemma runs_app t1 t2 : runs (t1 ++ t2) = runs t1 ++ runs t2.
Proof. unfold runs. apply flat_map_app. Qed.

Lemma spawned_app t1 t2 : spawned (t1 ++ t2) = spawned t1 ++ spawned t2.
Proof. unfold spawned. rewrite runs_app. apply fmap_app. Qed.

(** ** The pairing loop *)

Lemma list_pair_ind {X : Type} (P : list X → Prop) :
  P [] → (∀ x, P [x]) → (∀ x y l, P l → P (x :: y :: l)) → ∀ l, P l.
Proof.
  intros H0 H1 H2 l.
  assert (P l ∧ ∀ x, P (x :: l)) as [? _]; [|assumption].
  induction l as [|y l [IHl IHxl]]; split; auto.
Qed.

Lemma pairing_from (pre kv : list string) (m : gmap string string) :
  Nat.even (length pre) = true →
  (Nat.even (length kv) = true →
     ∃ m', for_range (List.filter Nat.even (seq (length pre) (length kv)))
             (pair_step (pre ++ kv)) m = Ret m')
  ∧ (Nat.even (length kv) = false →
     for_range (List.filter Nat.even (seq (length pre) (length kv)))
       (pair_step (pre ++ kv)) m = Panic "index out of range").
Proof.
  revert pre m. induction kv as [|k|k val kv IH] using list_pair_ind;
    intros pre m Hpre.
  - split; [intros _; eexists; reflexivity | discriminate].
  - split; [discriminate | intros _].
    simpl. rewrite Hpre. simpl. unfold pair_step.
    rewrite (lookup_ge_None_2 (pre ++ [k]) (length pre + 1));
      [| rewrite length_app; simpl; lia].
    destruct (_ !! length pre); reflexivity.
  - assert (Hstep : ∀ m0, pair_step (pre ++ k :: val :: kv) m0 (length pre)
                          = Ret (<[k := val]> m0)).
    { intros m0. unfold pair_step.
      rewrite (list_lookup_middle pre (val :: kv) k (length pre) eq_refl).
      replace (pre ++ k :: val :: kv) with ((pre ++ [k]) ++ val :: kv)
        by (rewrite <- app_assoc; reflexivity).
      rewrite (list_lookup_middle (pre ++ [k]) kv val (length pre + 1));
        [reflexivity | rewrite length_app; simpl; lia]. }
    assert (Hpre' : Nat.even (length (pre ++ [k; val])) = true).
    { rewrite length_app. simpl. rewrite Nat.add_comm. exact Hpre. }
    destruct (IH (pre ++ [k; val]) (<[k := val]> m) Hpre') as [IHe IHo].
    assert (Hseq : List.filter Nat.even
                     (seq (length pre) (length (k :: val :: kv)))
                   = length pre
                     :: List.filter Nat.even
                          (seq (length (pre ++ [k; val])) (length kv))).
    { cbn [length seq List.filter]. rewrite Hpre.
      rewrite Nat.even_succ, <- Nat.negb_even, Hpre. cbn [negb].
      rewrite length_app. cbn [length].
      replace (length pre + 2) with (S (S (length pre))) by lia.
      reflexivity. }
    rewrite Hseq. simpl for_range. rewrite Hstep. simpl.
    replace (pre ++ k :: val :: kv) with ((pre ++ [k; val]) ++ kv)
      by (rewrite <- app_assoc; reflexivity).
    split; intros H; [apply IHe | apply IHo]; exact H.
Qed.

(** The loop ends normally exactly on sequences of even length. *)
Lemma pairing_even (keyval : list string) :
  Nat.even (length keyval) = true → ∃ m, pairing keyval = Ret m.
Proof. intros H. apply (pairing_from [] keyval ∅ eq_refl). exact H. Qed.

Lemma pairing_odd (keyval : list string) :
  Nat.even (length keyval) = false →
  pairing keyval = Panic "index out of range".
Proof. intros H. apply (pairing_from [] keyval ∅ eq_refl). exact H. Qed.

(** ** Version identifiers *)

Lemma substring_0_0 (s : string) : substring 0 0 s = "".
Proof. destruct s; reflexivity. Qed.

(** [HasPrefix s p] holds exactly when [s] is [p] followed by something. *)
Lemma HasPrefix_spec (s p : string) :
  strings.HasPrefix s p = true ↔ ∃ rest, s = p +:+ rest.
Proof.
  unfold strings.HasPrefix. revert s.
  induction p as [|a p IH]; intros s.
  - cbn [String.length]. rewrite substring_0_0. simpl. split; eauto.
  - destruct s as [|b s].
    + simpl. split; [discriminate | intros [rest H]; discriminate H].
    + specialize (IH s). cbn [String.length substring].
      change (S (String.length p) <=? S (String.length s))%nat
        with (String.length p <=? String.length s)%nat.
      cbn [String.eqb]. destruct (Ascii.eqb_spec b a) as [->|Hne].
      * rewrite IH. split; intros [rest H]; exists rest.
        -- rewrite H. reflexivity.
        -- change (String a s = String a (p +:+ rest)) in H. congruence.
      * rewrite andb_false_r. split; [discriminate |].
        intros [rest H].
        change (String b s = String a (p +:+ rest)) in H. congruence.
Qed.

(** The slice [version[4:]] of [parseVersion] is within bounds. *)
Lemma HasPrefix_length (s p : string) :
  strings.HasPrefix s p = true → (String.length p ≤ String.length s)%nat.
Proof.
  unfold strings.HasPrefix. intros H.
  apply andb_true_iff in H as [H _]. apply Nat.leb_le in H. exact H.
Qed.

Lemma slice_from_app (p rest : string) :
  strings.slice_from (p +:+ rest) (String.length p) = rest.
Proof.
  induction p as [|a p IH]; simpl; [destruct rest; reflexivity | exact IH].
Qed.

(** C3.  A version string that starts with "sha:", that is, "sha:"
    followed by any [commit], is recognised as prefixed; the slice
    [version[4:]] is within bounds and is [commit]; and [parseVersion]
    returns the tag "master" and, as the commit, the string without its
    first four bytes. *)
Theorem parseVersion_sha (v : vcsCmd) (commit : string) :
  strings.HasPrefix ("sha:" +:+ commit) "sha:" = true
  ∧ (4 ≤ String.length ("sha:" +:+ commit))%nat
  ∧ strings.slice_from ("sha:" +:+ commit) 4 = commit
  ∧ parseVersion v ("sha:" +:+ commit) = ("master", commit).
Proof.
  assert (Hp : strings.HasPrefix ("sha:" +:+ commit) "sha:" = true)
    by (apply HasPrefix_spec; eauto).
  assert (Hs : strings.slice_from ("sha:" +:+ commit) 4 = commit)
    by (apply (slice_from_app "sha:")).
  split; [exact Hp|]. split; [exact (HasPrefix_length _ _ Hp)|].
  split; [exact Hs|].
  unfold parseVersion. rewrite Hp, Hs. reflexivity.
Qed.

(** C4.  A version string that does not start with "sha:" is returned as
    the tag, unchanged, with the empty commit; [parseVersion] is a total
    function, so every string is accepted. *)
Theorem parseVersion_tag (v : vcsCmd) (version : string) :
  (∀ rest, version ≠ "sha:" +:+ rest) →
  strings.HasPrefix version "sha:" = false
  ∧ parseVersion v version = (version, "").
Proof.
  intros Hno.
  assert (Hp : strings.HasPrefix version "sha:" = false).
  { destruct (strings.HasPrefix version "sha:") eqn:E; [|reflexivity].
    apply HasPrefix_spec in E as [rest E]. destruct (Hno rest E). }
  split; [exact Hp|]. unfold parseVersion. rewrite Hp. reflexivity.
Qed.

(** ** The existence test *)

(** C5.  [exists] makes one [os.Stat] call, on the marker entry inside the
    directory, and answers [true] when the call succeeds, [true] when it
    fails with an error that is not "does not exist", and [false] only
    when it fails with "does not exist". *)
Theorem exists_folds_errors (w : World) (v : vcsCmd) (dst : string) h :
  let stat := os_Stat (path_Join dst (meta v)) in
  ∃ b : bool,
    exec w (exists_ v dst) h = (Returned b, h ++ [Ev stat (w h stat)])
    ∧ (w h stat = None → b = true)
    ∧ (∀ e, w h stat = Some e → IsNotExist e = false → b = true)
    ∧ (b = false ↔ ∃ e, w h stat = Some e ∧ IsNotExist e = true).
Proof.
  intros stat. unfold exists_. fold stat. cbn.
  destruct (w h stat) as [e|] eqn:E.
  - exists (negb (IsNotExist e)). repeat split.
    + discriminate.
    + intros e' [= <-] ->. reflexivity.
    + intros Hb. exists e. split; [reflexivity|].
      destruct (IsNotExist e); [reflexivity | discriminate Hb].
    + intros (e' & [= <-] & ->). reflexivity.
  - exists true. repeat split; try discriminate.
    intros (e & H & _). discriminate H.
Qed.

(** ** Tokens *)

Lemma fields_scan_nonempty (s : string) (skip : nat) (cur : string) :
  Forall (λ token, token ≠ "") (strings.fields_scan s skip cur).
Proof.
  assert (Hflush : ∀ c, Forall (λ token, token ≠ "") (strings.flush c)).
  { intros c. unfold strings.flush. destruct (String.eqb_spec c "");
      [constructor | repeat constructor; assumption]. }
  revert skip cur. induction s as [|a s IH]; intros skip cur.
  - apply Hflush.
  - cbn [strings.fields_scan]. destruct skip as [|k]; [|apply IH].
    destruct (strings.space_width (String a s)); [apply IH|].
    apply Forall_app. split; [apply Hflush | apply IH].
Qed.

(** No token of [strings.Fields] is empty. *)
Lemma Fields_nonempty (s : string) :
  Forall (λ token, token ≠ "") (strings.Fields s).
Proof. apply fields_scan_nonempty. Qed.

(** ** The subprocess runner *)

(** [run1] refines the runner of the design document: once the pairing
    loop has built the mapping [m], both return the same result and leave
    the same events. *)
Lemma run1_refines (w : World) (v : vcsCmd) (dir template : string)
    (keyval : list string) (m : gmap string string) (verbose : bool) h :
  pairing keyval = Ret m →
  exec w (run1 v dir template keyval verbose) h =
    (Returned (spec_execute w v dir template m verbose h).1,
     (spec_execute w v dir template m verbose h).2).
Proof.
  intros Hm. unfold run1, spec_execute. rewrite Hm. cbn.
  destruct (w h (exec_LookPath (cmd v))) as [e|]; cbn.
  - destruct (w _ (log_Printf _)). rewrite <- app_assoc. reflexivity.
  - destruct (w _ (cmd_Run _)) as [out [e|]]; cbn; [|reflexivity].
    destruct verbose; cbn; [|reflexivity].
    destruct (w _ (log_Printf _)), (w _ (Stderr_Write _)).
    rewrite <- !app_assoc. reflexivity.
Qed.

(** A sequence of odd length makes [run1] panic before any call. *)
Lemma run1_odd (w : World) (v : vcsCmd) (dir template : string)
    (keyval : list string) (verbose : bool) h :
  Nat.even (length keyval) = false →
  exec w (run1 v dir template keyval verbose) h
  = (Panicked "index out of range", h).
Proof. intros H. unfold run1. rewrite (pairing_odd _ H). reflexivity. Qed.

Lemma run_refines (w : World) (v : vcsCmd) (dir template : string)
    (keyval : list string) (m : gmap string string) h :
  pairing keyval = Ret m →
  exec w (run v dir template keyval) h =
    (Returned (spec_execute w v dir template m true h).1.2,
     (spec_execute w v dir template m true h).2).
Proof.
  intros Hm. unfold run.
  rewrite exec_bind, (run1_refines _ _ _ _ _ _ _ _ Hm).
  destruct (spec_execute w v dir template m true h) as [[out err] h'].
  reflexivity.
Qed.

(** What one execution returns, and the one subprocess it starts. *)
Lemma spec_execute_runs (w : World) (v : vcsCmd) (dir template : string)
    (m : gmap string string) (verbose : bool) h :
  let c := {| Name := cmd v; Args := expand m <$> strings.Fields template;
              Dir := dir; Env := envForDir dir |} in
  ∃ t, (spec_execute w v dir template m verbose h).2 = h ++ t
    ∧ match w h (exec_LookPath (cmd v)) with
      | Some e =>
          runs t = []
          ∧ (spec_execute w v dir template m verbose h).1 = ([], Some e)
      | None =>
          let r := w (h ++ [Ev (exec_LookPath (cmd v)) None]) (cmd_Run c) in
          runs t = [(c, r)]
          ∧ (spec_execute w v dir template m verbose h).1
            = match r.2 with
              | Some e => ([], Some e)
              | None => (r.1, None)
              end
      end.
Proof.
  intros c. unfold spec_execute. fold c.
  destruct (w h (exec_LookPath (cmd v))) as [e|].
  - eexists. split; [reflexivity|]. split; reflexivity.
  - cbv zeta. destruct (w _ (cmd_Run c)) as [out [e|]]; [destruct verbose|];
      cbn [fst snd]; rewrite <- ?app_assoc;
      (eexists; split; [reflexivity|]; split; reflexivity).
Qed.

(** The subprocesses started by one execution: none when the tool is not
    found, one otherwise. *)
Lemma spec_execute_spawned (w : World) (v : vcsCmd) (dir template : string)
    (m : gmap string string) (verbose : bool) h :
  spawned (spec_execute w v dir template m verbose h).2 =
    spawned h ++
    match w h (exec_LookPath (cmd v)) with
    | Some _ => []
    | None => [{| Name := cmd v;
                  Args := expand m <$> strings.Fields template;
                  Dir := dir; Env := envForDir dir |}]
    end.
Proof.
  destruct (spec_execute_runs w v dir template m verbose h) as (t & Ht & Hc).
  rewrite Ht, spawned_app. f_equal. unfold spawned.
  destruct (w h (exec_LookPath (cmd v))); cbv zeta in Hc;
    destruct Hc as [-> _]; reflexivity.
Qed.

(** C6.  When [run1] starts the tool, the arguments are the tokens of
    [strings.Fields] applied to the template, each expanded on its own:
    as many arguments as tokens, the i-th argument being the expansion of
    the i-th token, whatever the values of the mapping contain. *)
Theorem run1_one_argument_per_token (w : World) (v : vcsCmd)
    (dir template : string) (keyval : list string)
    (m : gmap string string) (verbose : bool) h :
  pairing keyval = Ret m →
  w h (exec_LookPath (cmd v)) = None →
  ∃ c : Cmd,
    spawned (exec w (run1 v dir template keyval verbose) h).2
    = spawned h ++ [c]
    ∧ Args c = expand m <$> strings.Fields template
    ∧ length (Args c) = length (strings.Fields template)
    ∧ (∀ i token, strings.Fields template !! i = Some token →
                  Args c !! i = Some (expand m token)).
Proof.
  intros Hm Hlook.
  rewrite (run1_refines _ _ _ _ _ _ _ _ Hm). cbn [snd].
  rewrite spec_execute_spawned, Hlook.
  eexists. split; [reflexivity|]. cbn [Args].
  split; [reflexivity|]. split; [apply length_fmap|].
  intros i token Hi. rewrite list_lookup_fmap, Hi. reflexivity.
Qed.

(** C7.  When the tool cannot be resolved, [run1] starts no subprocess and
    does nothing that depends on the target directory, whatever it is
    called with.  Called within its contract, with a key/value sequence of
    even length, it returns the lookup error and no output; the lookup is
    the first call it makes, and the only other one is the log line that
    names the backend.  (A sequence of odd length panics before the
    lookup, see [run1_odd].) *)
Theorem run1_tool_not_found (w : World) (v : vcsCmd)
    (dir template : string) (keyval : list string) (verbose : bool) h
    (e : error) :
  let t := [Ev (exec_LookPath (cmd v)) (Some e);
            Ev (log_Printf (missing_line v)) tt] in
  w h (exec_LookPath (cmd v)) = Some e →
  (Nat.even (length keyval) = true →
     exec w (run1 v dir template keyval verbose) h
     = (Returned ([], Some e), h ++ t))
  ∧ runs (exec w (run1 v dir template keyval verbose) h).2 = runs h
  ∧ (∀ dir', exec w (run1 v dir' template keyval verbose) h
             = exec w (run1 v dir template keyval verbose) h).
Proof.
  intros t Hlook.
  destruct (Nat.even (length keyval)) eqn:Heven.
  - destruct (pairing_even _ Heven) as [m Hm].
    assert (H : ∀ d, exec w (run1 v d template keyval verbose) h
                     = (Returned ([], Some e), h ++ t)).
    { intros d. rewrite (run1_refines _ _ _ _ _ _ _ _ Hm).
      unfold spec_execute. rewrite Hlook. reflexivity. }
    split; [intros _; apply H|]. split.
    + rewrite H. cbn [snd]. rewrite runs_app. apply app_nil_r.
    + intros dir'. rewrite !H. reflexivity.
  - split; [discriminate|]. rewrite !(run1_odd _ _ _ _ _ _ _ Heven).
    split; [reflexivity|]. intros dir'.
    apply (run1_odd _ _ _ _ _ _ _ Heven).
Qed.

(** C8.  Every call of [run1] starts at most one subprocess.  When [Run]
    answers with an error, [run1] returns that error and no output (Go's
    [nil]), whatever was captured; when [Run] succeeds, it returns the
    captured output; and output is returned in no other case. *)
Theorem run1_output_only_on_success (w : World) (v : vcsCmd)
    (dir template : string) (keyval : list string) (verbose : bool) h :
  ∃ (r : outcome (bytes * option error)) (t : list event),
    exec w (run1 v dir template keyval verbose) h = (r, h ++ t)
    ∧ (length (runs t) ≤ 1)%nat
    ∧ (∀ c out e, (c, (out, Some e)) ∈ runs t → r = Returned ([], Some e))
    ∧ (∀ c out, (c, (out, None)) ∈ runs t → r = Returned (out, None))
    ∧ (∀ out, r = Returned (out, None) → ∃ c, (c, (out, None)) ∈ runs t)
    ∧ (∀ b e, r = Returned (b, Some e) → b = []).
Proof.
  destruct (Nat.even (length keyval)) eqn:Heven.
  - destruct (pairing_even _ Heven) as [m Hm].
    rewrite (run1_refines _ _ _ _ _ _ _ _ Hm).
    destruct (spec_execute_runs w v dir template m verbose h)
      as (t & Ht & Hcases).
    destruct (spec_execute w v dir template m verbose h) as [res h'].
    cbn [fst snd] in *. subst h'. exists (Returned res), t.
    split; [reflexivity|].
    destruct (w h (exec_LookPath (cmd v))) as [e|].
    + destruct Hcases as [-> ->]. cbn [length].
      split; [lia|]. repeat split.
      * intros c out e' Hin. inversion Hin.
      * intros c out Hin. inversion Hin.
      * intros out [=].
      * intros b e' [= <- _]. reflexivity.
    + cbv zeta in Hcases. destruct Hcases as [-> ->].
      destruct (w _ (cmd_Run _)) as [out [e|]]; cbn [fst snd length].
      * split; [lia|]. repeat split.
        -- intros c out' e' Hin. apply list_elem_of_singleton in Hin.
           injection Hin as _ _ <-. reflexivity.
        -- intros c out' Hin. apply list_elem_of_singleton in Hin.
           discriminate Hin.
        -- intros out' [=].
        -- intros b e' [= <- _]. reflexivity.
      * split; [lia|]. repeat split.
        -- intros c out' e' Hin. apply list_elem_of_singleton in Hin.
           discriminate Hin.
        -- intros c out' Hin. apply list_elem_of_singleton in Hin.
           injection Hin as _ <-. reflexivity.
        -- intros out' [= <-]. eexists. apply list_elem_of_singleton.
           reflexivity.
        -- intros b e' [=].
  - rewrite (run1_odd _ _ _ _ _ _ _ Heven).
    exists (Panicked "index out of range"), [].
    rewrite app_nil_r. split; [reflexivity|]. cbn [runs flat_map length].
    split; [lia|]. repeat split.
    + intros c out e Hin. inversion Hin.
    + intros c out Hin. inversion Hin.
    + intros out [=].
    + intros b e [=].
Qed.

(** ** The call sites of the runner *)

Lemma pairing_single (k x : string) : pairing [k; x] = Ret {[ k := x ]}.
Proof. unfold pairing. cbn. rewrite insert_empty. reflexivity. Qed.

Lemma pairing_create (dir repo tag : string) :
  pairing ["dir"; dir; "repo"; repo; "branch"; tag]
  = Ret {[ "dir" := dir; "repo" := repo; "branch" := tag ]}.
Proof.
  (* the keys are literals, so both maps compute to the same trie *)
  unfold pairing. cbn. reflexivity.
Qed.

(** [create] in terms of [run]: the second call is made when the first
    returned no error and the commit is not empty. *)
Lemma exec_create_run (w : World) (v : vcsCmd) (dir repo version : string) h :
  exec w (create v dir repo version) h =
    let '(tag, commit) := parseVersion v version in
    match exec w (run v "." (createCmd v)
                    ["dir"; dir; "repo"; repo; "branch"; tag]) h with
    | (Returned None, h1) =>
        if decide (commit = "") then (Returned None, h1)
        else exec w (run v dir (checkoutCmd v) ["version"; commit]) h1
    | (Returned (Some e), h1) => (Returned (Some e), h1)
    | (Panicked msg, h1) => (Panicked msg, h1)
    end.
Proof.
  unfold create. destruct (parseVersion v version) as [tag commit].
  rewrite exec_bind.
  destruct (exec w (run v "." _ _) h) as [[[e|]|msg] h1]; try reflexivity.
  destruct (decide (commit = "")) as [->|Hne]; [reflexivity|].
  rewrite bool_decide_eq_true_2 by exact Hne. reflexivity.
Qed.

(** [checkout] in terms of [run]: one call. *)
Lemma exec_checkout_run (w : World) (v : vcsCmd) (dir version : string) h :
  exec w (checkout v dir version) h =
    let '(tag, commit) := parseVersion v version in
    if decide (commit = "")
    then exec w (run v dir (downloadCmd v) ["tag"; tag]) h
    else exec w (run v dir (checkoutCmd v) ["version"; commit]) h.
Proof.
  unfold checkout. destruct (parseVersion v version) as [tag commit].
  destruct (decide (commit = "")) as [->|Hne]; [reflexivity|].
  rewrite bool_decide_eq_true_2 by exact Hne. reflexivity.
Qed.

(** The even indices below [n], in order. *)
Lemma loop_indices_spec (n i : nat) :
  i ∈ loop_indices n ↔ i < n ∧ Nat.even i = true.
Proof.
  unfold loop_indices.
  rewrite list_elem_of_In, filter_In, in_seq. intuition lia.
Qed.

Lemma loop_in_bounds (n : nat) :
  (∀ i, i ∈ loop_indices n → i + 1 < n) ↔ Nat.even n = true.
Proof.
  split.
  - intros H. destruct (Nat.even n) eqn:E; [reflexivity|].
    destruct n as [|n]; [discriminate E|].
    assert (Hn : Nat.even n = true).
    { rewrite Nat.even_succ, <- Nat.negb_even in E.
      destruct (Nat.even n); [reflexivity | discriminate E]. }
    specialize (H n (proj2 (loop_indices_spec (S n) n) (conj (Nat.lt_succ_diag_r n) Hn))).
    lia.
  - intros Hn i Hi. apply loop_indices_spec in Hi as [Hlt Hi].
    destruct (decide (i + 1 = n)) as [<-|]; [|lia].
    rewrite Nat.add_1_r, Nat.even_succ, <- Nat.negb_even, Hi in Hn.
    discriminate Hn.
Qed.

(** ** Create and checkout *)

(** C1.  [create] first executes the create template in "." with the
    keys dir, repo, branch bound to the directory, the repository locator
    and the parsed tag.  When that step returns an error, the error is the
    result and nothing else is executed; when the parsed commit is empty,
    nothing else is executed either; otherwise the checkout template is
    executed in [dir] with the key version bound to the commit. *)
Theorem create_steps (w : World) (v : vcsCmd) (dir repo version : string) h :
  let tag := (parseVersion v version).1 in
  let commit := (parseVersion v version).2 in
  let '(r1, h1) :=
    spec_execute w v "." (createCmd v)
      {[ "dir" := dir; "repo" := repo; "branch" := tag ]} true h in
  exec w (create v dir repo version) h =
    match r1.2 with
    | Some e => (Returned (Some e), h1)
    | None =>
        if decide (commit = "") then (Returned None, h1)
        else
          let '(r2, h2) :=
            spec_execute w v dir (checkoutCmd v)
              {[ "version" := commit ]} true h1 in
          (Returned r2.2, h2)
    end.
Proof.
  rewrite exec_create_run.
  destruct (parseVersion v version) as [tag commit]. cbn [fst snd].
  rewrite (run_refines _ _ _ _ _ _ _ (pairing_create dir repo tag)).
  destruct (spec_execute w v "." _ _ true h) as [[out1 [e|]] h1];
    cbn [fst snd]; [reflexivity|].
  destruct (decide (commit = "")) as [->|Hne]; [reflexivity|].
  rewrite (run_refines _ _ _ _ _ _ _ (pairing_single "version" commit)).
  destruct (spec_execute w v dir _ _ true h1) as [[out2 err2] h2].
  reflexivity.
Qed.

(** C2.  [checkout] executes exactly one template in [dir]: the checkout
    template with the key version bound to the commit when the parsed
    commit is not empty, and otherwise the update template with the key
    tag bound to the parsed tag. *)
Theorem checkout_one_template (w : World) (v : vcsCmd)
    (dir version : string) h :
  let tag := (parseVersion v version).1 in
  let commit := (parseVersion v version).2 in
  let '(r, h') :=
    if decide (commit = "")
    then spec_execute w v dir (downloadCmd v) {[ "tag" := tag ]} true h
    else spec_execute w v dir (checkoutCmd v) {[ "version" := commit ]}
           true h in
  exec w (checkout v dir version) h = (Returned r.2, h').
Proof.
  rewrite exec_checkout_run.
  destruct (parseVersion v version) as [tag commit]. cbn [fst snd].
  destruct (decide (commit = "")) as [->|Hne].
  - rewrite (run_refines _ _ _ _ _ _ _ (pairing_single "tag" tag)).
    destruct (spec_execute w v dir _ _ true h) as [[out err] h'].
    reflexivity.
  - rewrite (run_refines _ _ _ _ _ _ _ (pairing_single "version" commit)).
    destruct (spec_execute w v dir _ _ true h) as [[out err] h'].
    reflexivity.
Qed.

(** C9.  The version "sha:" parses to the tag "master" and the empty
    commit, so [checkout] executes the update template with the tag
    "master", and [create] executes the create template with the branch
    "master" and nothing after it; neither reports an error of its own. *)
Theorem sha_without_commit (w : World) (v : vcsCmd) (dir repo : string) h :
  parseVersion v "sha:" = ("master", "")
  ∧ (let '(r, h') :=
       spec_execute w v dir (downloadCmd v) {[ "tag" := "master" ]} true h in
     exec w (checkout v dir "sha:") h = (Returned r.2, h'))
  ∧ (let '(r, h') :=
       spec_execute w v "." (createCmd v)
         {[ "dir" := dir; "repo" := repo; "branch" := "master" ]} true h in
     exec w (create v dir repo "sha:") h = (Returned r.2, h')).
Proof.
  split; [reflexivity|]. split.
  - rewrite exec_checkout_run.
    change (parseVersion v "sha:") with ("master", ""). cbv beta iota.
    destruct (decide ("" = "")) as [_|Hne]; [|destruct Hne; reflexivity].
    rewrite (run_refines _ _ _ _ _ _ _ (pairing_single "tag" "master")).
    destruct (spec_execute w v dir _ _ true h) as [[out err] h'].
    reflexivity.
  - rewrite exec_create_run.
    change (parseVersion v "sha:") with ("master", ""). cbv beta iota.
    rewrite (run_refines _ _ _ _ _ _ _ (pairing_create dir repo "master")).
    destruct (spec_execute w v "." _ _ true h) as [[out [e|]] h1];
      cbn [fst snd]; [reflexivity|].
    destruct (decide ("" = "")) as [_|Hne]; [|destruct Hne]; reflexivity.
Qed.

(** C10.  The pairing loop visits the even indices below the length and
    reads the element after each, which exists for all of them exactly
    when the length is even; the loop then ends normally, and panics
    otherwise.  The sequences passed by [create] (six elements) and by
    [checkout] (two elements) are of even length, so that neither function
    ever panics. *)
Theorem pairing_in_bounds :
  (∀ keyval : list string,
     (∀ i, i ∈ loop_indices (length keyval)
           ↔ i < length keyval ∧ Nat.even i = true)
     ∧ ((∀ i, i ∈ loop_indices (length keyval) → i + 1 < length keyval)
        ↔ Nat.even (length keyval) = true)
     ∧ ((∃ m, pairing keyval = Ret m) ↔ Nat.even (length keyval) = true))
  ∧ (∀ dir repo tag : string,
       length ["dir"; dir; "repo"; repo; "branch"; tag] = 6
       ∧ ∃ m, pairing ["dir"; dir; "repo"; repo; "branch"; tag] = Ret m)
  ∧ (∀ k x : string, length [k; x] = 2 ∧ ∃ m, pairing [k; x] = Ret m)
  ∧ (∀ w v dir repo version h msg,
       (exec w (create v dir repo version) h).1 ≠ Panicked msg)
  ∧ (∀ w v dir version h msg,
       (exec w (checkout v dir version) h).1 ≠ Panicked msg).
Proof.
  split; [|split; [|split; [|split]]].
  - intros keyval. split; [intros i; apply loop_indices_spec|].
    split; [apply loop_in_bounds|]. split.
    + intros [m Hm]. destruct (Nat.even (length keyval)) eqn:E;
        [reflexivity|].
      rewrite (pairing_odd _ E) in Hm. discriminate Hm.
    + apply pairing_even.
  - intros dir repo tag. split; [reflexivity|].
    eexists. apply pairing_create.
  - intros k x. split; [reflexivity|]. eexists. apply pairing_single.
  - intros w v dir repo version h msg. rewrite exec_create_run.
    destruct (parseVersion v version) as [tag commit].
    rewrite (run_refines _ _ _ _ _ _ _ (pairing_create dir repo tag)).
    destruct (spec_execute w v "." _ _ true h) as [[out [e|]] h1];
      cbn [fst snd]; [discriminate|].
    destruct (decide (commit = "")); [discriminate|].
    rewrite (run_refines _ _ _ _ _ _ _ (pairing_single "version" commit)).
    discriminate.
  - intros w v dir version h msg. rewrite exec_checkout_run.
    destruct (parseVersion v version) as [tag commit].
    destruct (decide (commit = ""));
      rewrite (run_refines _ _ _ _ _ _ _ (pairing_single _ _));
      discriminate.
Qed.

(** * Further properties of the driver *)

(** ** The registry *)

(** X1.  [vcsByCmd] finds a descriptor exactly when a registered descriptor
    has the given command, and then returns that descriptor; it returns
    Go's [nil] exactly when no registered descriptor has the command.
    [getVcsByUrl] returns, for every URL, a registered descriptor, which
    [vcsByCmd] finds again under its own command. *)
Theorem registry_lookup (c url : string) (v : vcsCmd) :
  (vcsByCmd c = Some v ↔ v ∈ vcsList ∧ cmd v = c)
  ∧ (vcsByCmd c = None ↔ ∀ v', v' ∈ vcsList → cmd v' ≠ c)
  ∧ getVcsByUrl url ∈ vcsList
  ∧ vcsByCmd (cmd (getVcsByUrl url)) = Some (getVcsByUrl url).
Proof.
  assert (Hin : ∀ v', v' ∈ vcsList ↔ v' = vcsGit).
  { intros v'. unfold vcsList. apply list_elem_of_singleton. }
  unfold vcsByCmd, vcsList. cbn [List.find cmd vcsGit].
  split; [|split; [|split]].
  - rewrite Hin. destruct (String.eqb_spec "git" c) as [<-|Hne].
    + split; [intros [= <-]; split; reflexivity | intros [-> _]; reflexivity].
    + split; [discriminate | intros [-> Hc]; destruct (Hne Hc)].
  - destruct (String.eqb_spec "git" c) as [<-|Hne].
    + split; [discriminate|]. intros H.
      destruct (H vcsGit (proj2 (Hin vcsGit) eq_refl) eq_refl).
    + split; [|reflexivity]. intros _ v' Hv' Hc.
      apply Hin in Hv' as ->. exact (Hne Hc).
  - apply Hin. reflexivity.
  - reflexivity.
Qed.

(** ** Version identifiers, continued *)

Lemma parseVersion_cases (v : vcsCmd) (version : string) :
  (∃ commit, version = "sha:" +:+ commit
             ∧ parseVersion v version = ("master", commit))
  ∨ ((∀ rest, version ≠ "sha:" +:+ rest)
     ∧ parseVersion v version = (version, "")).
Proof.
  unfold parseVersion.
  destruct (strings.HasPrefix version "sha:") eqn:E.
  - left. apply HasPrefix_spec in E as [commit ->]. exists commit.
    split; [reflexivity|]. rewrite (slice_from_app "sha:"). reflexivity.
  - right. split; [|reflexivity]. intros rest ->.
    rewrite (proj2 (HasPrefix_spec _ _)) in E by eauto. discriminate E.
Qed.

(** X2.  The version can be read back from what [parseVersion] returns: a
    non-empty commit comes with the tag "master" and from the version
    "sha:" followed by that commit.  An empty commit comes from the version
    equal to the tag or, with the tag "master", from the version "sha:".
    The tag is empty only for the empty version. *)
Theorem parseVersion_inversion (v : vcsCmd) (version : string) :
  let tag := (parseVersion v version).1 in
  let commit := (parseVersion v version).2 in
  (commit ≠ "" → tag = "master" ∧ version = "sha:" +:+ commit)
  ∧ (commit = "" → version = tag ∨ (version = "sha:" ∧ tag = "master"))
  ∧ (tag = "" ↔ version = "").
Proof.
  destruct (parseVersion_cases v version) as [(c & -> & ->)|[Hno ->]];
    cbn [fst snd].
  - split; [intros _; split; reflexivity|].
    split; [intros ->; right; split; reflexivity|].
    split; discriminate.
  - split; [intros H; destruct H; reflexivity|].
    split; [intros _; left; reflexivity|]. reflexivity.
Qed.

(** X3.  [parseVersion] tells all version strings apart except "sha:" and
    "master", which it maps to the same pair. *)
Theorem parseVersion_collision (v : vcsCmd) (a b : string) :
  parseVersion v a = parseVersion v b ↔
  a = b ∨ (a = "sha:" ∧ b = "master") ∨ (a = "master" ∧ b = "sha:").
Proof.
  split.
  - destruct (parseVersion_cases v a) as [(ca & -> & ->)|[Ha ->]];
      destruct (parseVersion_cases v b) as [(cb & -> & ->)|[Hb ->]].
    + intros [= ->]. left. reflexivity.
    + intros [= <- ->]. right. left. split; reflexivity.
    + intros [= -> <-]. right. right. split; reflexivity.
    + intros [= ->]. left. reflexivity.
  - intros [->|[[-> ->]|[-> ->]]]; reflexivity.
Qed.

(** ** The pairing loop, continued *)

(** One turn of the loop on a sequence that still has a pair to read. *)
Lemma pairing_turn (pre rest : list string) (k val : string)
    (m : gmap string string) :
  Nat.even (length pre) = true →
  for_range (List.filter Nat.even
               (seq (length pre) (length (k :: val :: rest))))
    (pair_step (pre ++ k :: val :: rest)) m
  = for_range (List.filter Nat.even
                 (seq (length (pre ++ [k; val])) (length rest)))
      (pair_step ((pre ++ [k; val]) ++ rest)) (<[k := val]> m).
Proof.
  intros Hpre.
  assert (Hstep : pair_step (pre ++ k :: val :: rest) m (length pre)
                  = Ret (<[k := val]> m)).
  { unfold pair_step.
    rewrite (list_lookup_middle pre (val :: rest) k (length pre) eq_refl).
    replace (pre ++ k :: val :: rest) with ((pre ++ [k]) ++ val :: rest)
      by (rewrite <- app_assoc; reflexivity).
    rewrite (list_lookup_middle (pre ++ [k]) rest val (length pre + 1));
      [reflexivity | rewrite length_app; simpl; lia]. }
  cbn [length seq List.filter]. rewrite Hpre.
  rewrite Nat.even_succ, <- Nat.negb_even, Hpre. cbn [negb for_range].
  rewrite Hstep. cbn [mbind Prog_mbind Prog_bind].
  rewrite length_app. cbn [length].
  replace (length pre + 2) with (S (S (length pre))) by lia.
  rewrite <- app_assoc. reflexivity.
Qed.

Lemma pairing_keyvals_from (pre : list string)
    (pairs : list (string * string)) (m : gmap string string) :
  Nat.even (length pre) = true →
  for_range (List.filter Nat.even
               (seq (length pre) (length (keyvals pairs))))
    (pair_step (pre ++ keyvals pairs)) m
  = Ret (foldl (λ acc kv, <[kv.1 := kv.2]> acc) m pairs).
Proof.
  revert pre m. induction pairs as [|[k val] pairs IH]; intros pre m Hpre.
  - reflexivity.
  - change (keyvals ((k, val) :: pairs)) with (k :: val :: keyvals pairs).
    rewrite (pairing_turn _ _ _ _ _ Hpre). rewrite IH; [reflexivity|].
    rewrite length_app. cbn [length]. rewrite Nat.add_comm. exact Hpre.
Qed.

Lemma foldl_insert_list_to_map (pairs : list (string * string)) :
  foldl (λ acc kv, <[kv.1 := kv.2]> acc) (∅ : gmap string string) pairs
  = list_to_map (reverse pairs).
Proof.
  induction pairs as [|kv pairs IH] using rev_ind; [reflexivity|].
  rewrite foldl_app, reverse_app. cbn [foldl reverse]. rewrite IH.
  destruct kv as [k val]. reflexivity.
Qed.

(** X4.  On the flat sequence of a list of pairs the pairing loop ends
    normally, with the mapping in which each key has the value of its last
    pair: a later pair overrides an earlier one with the same key, and a key
    that occurs in no pair is not bound. *)
Theorem pairing_last_wins (pairs : list (string * string)) :
  ∃ m : gmap string string,
    pairing (keyvals pairs) = Ret m
    ∧ m = list_to_map (reverse pairs)
    ∧ (∀ k, m !! k = None ↔ k ∉ pairs.*1)
    ∧ (∀ before after k val,
         pairs = before ++ (k, val) :: after → k ∉ after.*1 →
         m !! k = Some val).
Proof.
  exists (list_to_map (reverse pairs)). split; [|split; [reflexivity|split]].
  - unfold pairing, loop_indices.
    rewrite (pairing_keyvals_from [] pairs ∅ eq_refl).
    rewrite foldl_insert_list_to_map. reflexivity.
  - intros k. rewrite <- not_elem_of_list_to_map.
    rewrite fmap_reverse, elem_of_reverse. reflexivity.
  - intros before after k val -> Hk.
    rewrite reverse_app, reverse_cons, <- app_assoc.
    rewrite list_to_map_app. rewrite lookup_union_r.
    + cbn [app list_to_map foldr]. apply lookup_insert_eq.
    + apply not_elem_of_list_to_map_1.
      rewrite fmap_reverse, elem_of_reverse. exact Hk.
Qed.

(** ** The runner, continued *)


(** X5.  Called with a key/value sequence of odd length, [run1] and its
    three wrappers panic with an index out of range before they make any
    call: nothing is looked up, started or logged. *)
Theorem odd_keyval_panics (w : World) (v : vcsCmd) (dir template : string)
    (keyval : list string) (verbose : bool) h :
  Nat.even (length keyval) = false →
  exec w (run1 v dir template keyval verbose) h
  = (Panicked "index out of range", h)
  ∧ exec w (run v dir template keyval) h
    = (Panicked "index out of range", h)
  ∧ exec w (runVerboseOnly v dir template keyval) h
    = (Panicked "index out of range", h)
  ∧ exec w (runOutput v dir template keyval) h
    = (Panicked "index out of range", h).
Proof.
  intros Hodd. unfold run, runVerboseOnly, runOutput.
  rewrite !exec_bind, !(run1_odd _ _ _ _ _ _ _ Hodd).
  repeat split; reflexivity.
Qed.

(** The three ways one execution can go, with the events it adds. *)
Lemma spec_execute_cases (w : World) (v : vcsCmd) (dir template : string)
    (m : gmap string string) (verbose : bool) h :
  let look := exec_LookPath (cmd v) in
  let c := {| Name := cmd v; Args := expand m <$> strings.Fields template;
              Dir := dir; Env := envForDir dir |} in
  (∃ e, w h look = Some e
        ∧ spec_execute w v dir template m verbose h
          = (([], Some e),
             h ++ [Ev look (Some e); Ev (log_Printf (missing_line v)) tt]))
  ∨ (∃ out, w h look = None
            ∧ w (h ++ [Ev look None]) (cmd_Run c) = (out, None)
            ∧ spec_execute w v dir template m verbose h
              = ((out, None),
                 h ++ [Ev look None; Ev (cmd_Run c) (out, None)]))
  ∨ (∃ out e, w h look = None
              ∧ w (h ++ [Ev look None]) (cmd_Run c) = (out, Some e)
              ∧ spec_execute w v dir template m verbose h
                = (([], Some e),
                   h ++ [Ev look None; Ev (cmd_Run c) (out, Some e)]
                     ++ if verbose
                        then [Ev (log_Printf (failure_line v dir (Args c))) tt;
                              Ev (Stderr_Write out) tt]
                        else [])).
Proof.
  intros look c. unfold spec_execute. fold look c.
  destruct (w h look) as [e|].
  - left. exists e. split; reflexivity.
  - right. destruct (w _ (cmd_Run c)) as [out [e|]].
    + right. exists out, e. split; [reflexivity|]. split; [reflexivity|].
      destruct verbose; rewrite <- ?app_assoc; reflexivity.
    + left. exists out. split; [reflexivity|]. split; [reflexivity|].
      rewrite <- app_assoc. reflexivity.
Qed.


(** X7.  What [run1] reports, on every call: a failed lookup is logged with
    the line that names the backend; a failed command is reported only when
    [verbose] is set, by the log line that shows the directory, the tool and
    the expanded arguments, and by writing the captured output, unchanged,
    to the standard error stream; a successful command is not reported at
    all. *)
Theorem run1_diagnostics (w : World) (v : vcsCmd) (dir template : string)
    (keyval : list string) (verbose : bool) h :
  ∃ (r : outcome (bytes * option error)) (t : list event),
    exec w (run1 v dir template keyval verbose) h = (r, h ++ t)
    ∧ log_lines t
      = ((λ _, missing_line v) <$> failed_lookups t)
        ++ (if verbose
            then (λ co, failure_line v dir (Args co.1)) <$> failed_runs t
            else [])
    ∧ stderr_writes t = (if verbose then snd <$> failed_runs t else []).
Proof.
  destruct (Nat.even (length keyval)) eqn:Heven.
  - destruct (pairing_even _ Heven) as [m Hm].
    rewrite (run1_refines _ _ _ _ _ _ _ _ Hm).
    destruct (spec_execute_cases w v dir template m verbose h)
      as [(e & _ & ->)|[(out & _ & _ & ->)|(out & e & _ & _ & ->)]];
      cbn [fst snd]; eexists _, _; (split; [reflexivity|]);
      destruct verbose; split; reflexivity.
  - rewrite (run1_odd _ _ _ _ _ _ _ Heven).
    exists (Panicked "index out of range"), [].
    rewrite app_nil_r. destruct verbose; repeat split; reflexivity.
Qed.


(** ** Create and checkout, continued *)

Lemma parseVersion_sha_eq (v : vcsCmd) (commit : string) :
  parseVersion v ("sha:" +:+ commit) = ("master", commit).
Proof.
  unfold parseVersion.
  rewrite (proj2 (HasPrefix_spec ("sha:" +:+ commit) "sha:")) by eauto.
  rewrite (slice_from_app "sha:"). reflexivity.
Qed.

(** X9.  When the tool cannot be resolved, [create] and [checkout] return
    the lookup error after one lookup and one log line: no subprocess is
    started, and [create] does not go on to its second step. *)
Theorem driver_tool_not_found (w : World) (v : vcsCmd)
    (dir repo version : string) h (e : error) :
  let t := [Ev (exec_LookPath (cmd v)) (Some e);
            Ev (log_Printf (missing_line v)) tt] in
  w h (exec_LookPath (cmd v)) = Some e →
  exec w (create v dir repo version) h = (Returned (Some e), h ++ t)
  ∧ exec w (checkout v dir version) h = (Returned (Some e), h ++ t)
  ∧ runs t = [].
Proof.
  intros t Hlook. rewrite exec_create_run, exec_checkout_run.
  destruct (parseVersion v version) as [tag commit].
  rewrite (run_refines _ _ _ _ _ _ _ (pairing_create dir repo tag)).
  split; [|split; [|reflexivity]].
  - unfold spec_execute. rewrite Hlook. reflexivity.
  - destruct (decide (commit = ""));
      rewrite (run_refines _ _ _ _ _ _ _ (pairing_single _ _));
      unfold spec_execute; rewrite Hlook; reflexivity.
Qed.

(** X10.  Creating at a commit is creating at "master" and then, when that
    succeeded, checking the commit out: for a non-empty commit, [create]
    with "sha:" followed by the commit does what [create] with "master"
    followed by [checkout] with the same version does. *)
Theorem create_sha_composes (w : World) (v : vcsCmd)
    (dir repo commit : string) h :
  commit ≠ "" →
  exec w (create v dir repo ("sha:" +:+ commit)) h =
    match exec w (create v dir repo "master") h with
    | (Returned None, h1) => exec w (checkout v dir ("sha:" +:+ commit)) h1
    | other => other
    end.
Proof.
  intros Hne. rewrite !exec_create_run, parseVersion_sha_eq.
  change (parseVersion v "master") with ("master", ""). cbv beta iota.
  destruct (exec w (run v "." _ _) h) as [[[e|]|msg] h1]; try reflexivity.
  destruct (decide (commit = "")) as [->|_]; [destruct Hne; reflexivity|].
  destruct (decide ("" = "")) as [_|H]; [|destruct H; reflexivity].
  rewrite exec_checkout_run, parseVersion_sha_eq. cbv beta iota.
  destruct (decide (commit = "")) as [->|_]; [destruct Hne|]; reflexivity.
Qed.

(** One [run] within its contract: at most one subprocess, and success
    exactly when one was started and succeeded. *)
Lemma run_subprocess (w : World) (v : vcsCmd) (dir template : string)
    (keyval : list string) (m : gmap string string) h :
  pairing keyval = Ret m →
  ∃ (err : option error) (t : list event),
    exec w (run v dir template keyval) h = (Returned err, h ++ t)
    ∧ (length (runs t) ≤ 1)%nat
    ∧ (err = None ↔ length (runs t) = 1 ∧ failed_runs t = [])
    ∧ (err = None → failed_lookups t = [])
    ∧ Forall (λ c, Name c = cmd v ∧ Dir c = dir) (spawned t).
Proof.
  intros Hm. rewrite (run_refines _ _ _ _ _ _ _ Hm).
  destruct (spec_execute_cases w v dir template m true h)
    as [(e & _ & ->)|[(out & _ & _ & ->)|(out & e & _ & _ & ->)]];
    cbn [fst snd]; eexists _, _; (split; [reflexivity|]).
  - split; [cbn; lia|]. split; [|split; [discriminate|constructor]].
    split; [discriminate | intros [[=] _]].
  - split; [cbn; lia|]. split; [|split; [reflexivity|repeat constructor]].
    split; [intros _; split; reflexivity | reflexivity].
  - split; [cbn; lia|]. split; [|split; [discriminate|repeat constructor]].
    split; [discriminate | intros [_ [=]]].
Qed.

(** X11.  [checkout] starts at most one subprocess, the backend's tool in
    the given directory, and it succeeds exactly when it started one and
    that one succeeded. *)
Theorem checkout_subprocess (w : World) (v : vcsCmd) (dir version : string) h :
  ∃ (err : option error) (t : list event),
    exec w (checkout v dir version) h = (Returned err, h ++ t)
    ∧ (length (runs t) ≤ 1)%nat
    ∧ (err = None ↔ length (runs t) = 1 ∧ failed_runs t = [])
    ∧ Forall (λ c, Name c = cmd v ∧ Dir c = dir) (spawned t).
Proof.
  rewrite exec_checkout_run.
  destruct (parseVersion v version) as [tag commit].
  destruct (decide (commit = "")) as [Hc|Hc];
    match goal with
    | |- context [exec w (run v dir ?tpl [?k; ?x]) h] =>
        destruct (run_subprocess w v dir tpl [k; x] _ h (pairing_single k x))
          as (err & t & -> & Hlen & Hok & _ & Hall)
    end;
    exists err, t; (split; [reflexivity|]); (split; [exact Hlen|]);
    (split; [exact Hok | exact Hall]).
Qed.

Lemma failed_runs_app t1 t2 :
  failed_runs (t1 ++ t2) = failed_runs t1 ++ failed_runs t2.
Proof. unfold failed_runs. rewrite runs_app. apply omap_app. Qed.

(** X12.  [create] starts at most two subprocesses, both the backend's
    tool: the first in ".", the second, which it starts only for a
    non-empty commit, in the new directory.  It succeeds exactly when it
    started one subprocess for a version without commit, or two for a
    version with a commit, and none of them failed. *)
Theorem create_subprocesses (w : World) (v : vcsCmd)
    (dir repo version : string) h :
  let commit := (parseVersion v version).2 in
  ∃ (err : option error) (t : list event),
    exec w (create v dir repo version) h = (Returned err, h ++ t)
    ∧ (length (runs t) ≤ 2)%nat
    ∧ (err = None
       ↔ length (runs t) = (if decide (commit = "") then 1 else 2)
         ∧ failed_runs t = [])
    ∧ (∀ c, spawned t !! 0 = Some c → Name c = cmd v ∧ Dir c = ".")
    ∧ (∀ c, spawned t !! 1 = Some c →
            Name c = cmd v ∧ Dir c = dir ∧ commit ≠ "").
Proof.
  rewrite exec_create_run.
  destruct (parseVersion v version) as [tag commit]. cbn [fst snd].
  destruct (run_subprocess w v "." (createCmd v) _ _ h
              (pairing_create dir repo tag))
    as (err1 & t1 & -> & Hlen1 & Hok1 & _ & Hall1).
  assert (Hfirst : ∀ t' c, (spawned t1 ++ t') !! 0 = Some c →
                           length (runs t1) = 1 →
                           Name c = cmd v ∧ Dir c = ".").
  { intros t' c Hc H1. rewrite lookup_app_l in Hc
      by (unfold spawned; rewrite length_fmap; lia).
    exact (proj1 (Forall_lookup _ _) Hall1 0 c Hc). }
  assert (Hshort : ∀ i c, spawned t1 !! i = Some c → i = 0).
  { intros i c Hc. apply lookup_lt_Some in Hc.
    unfold spawned in Hc. rewrite length_fmap in Hc. lia. }
  destruct err1 as [e|].
  - exists (Some e), t1. split; [reflexivity|]. split; [lia|].
    split; [|split].
    + split; [discriminate|]. intros [Hn Hf]. apply Hok1.
      destruct (decide (commit = "")); [split; assumption | lia].
    + intros c Hc. exact (proj1 (Forall_lookup _ _) Hall1 0 c Hc).
    + intros c Hc. apply Hshort in Hc. discriminate Hc.
  - destruct (proj1 Hok1 eq_refl) as [Hn1 Hf1].
    destruct (decide (commit = "")) as [Hc|Hc].
    + exists None, t1. split; [reflexivity|]. split; [lia|].
      split; [|split].
      * split; [intros _; split; assumption | reflexivity].
      * intros c Hc0. exact (proj1 (Forall_lookup _ _) Hall1 0 c Hc0).
      * intros c Hc1. apply Hshort in Hc1. discriminate Hc1.
    + destruct (run_subprocess w v dir (checkoutCmd v) _ _ (h ++ t1)
                  (pairing_single "version" commit))
        as (err2 & t2 & -> & Hlen2 & Hok2 & _ & Hall2).
      exists err2, (t1 ++ t2). rewrite app_assoc.
      split; [reflexivity|].
      rewrite runs_app, length_app, failed_runs_app, Hf1, Hn1.
      split; [lia|]. split; [|split].
      * rewrite Hok2. cbn [app]. split; intros [Hn Hf]; split;
          try assumption; lia.
      * intros c Hc0. unfold spawned in Hc0. rewrite runs_app, fmap_app in Hc0.
        apply (Hfirst _ c Hc0 Hn1).
      * intros c Hc1. unfold spawned in Hc1. rewrite runs_app, fmap_app in Hc1.
        rewrite lookup_app_r in Hc1 by (rewrite length_fmap; lia).
        rewrite length_fmap, Hn1 in Hc1. cbn [Nat.sub] in Hc1.
        destruct (proj1 (Forall_lookup _ _) Hall2 0 c Hc1) as [Hname Hdir].
        repeat split; assumption.
Qed.

(** The one command [run] can start. *)
Lemma run_spawned (w : World) (v : vcsCmd) (dir template : string)
    (keyval : list string) (m : gmap string string) h :
  pairing keyval = Ret m →
  ∃ (err : option error) (t : list event),
    exec w (run v dir template keyval) h = (Returned err, h ++ t)
    ∧ ((spawned t = [] ∧ err ≠ None)
       ∨ spawned t = [{| Name := cmd v;
                         Args := expand m <$> strings.Fields template;
                         Dir := dir; Env := envForDir dir |}]).
Proof.
  intros Hm. rewrite (run_refines _ _ _ _ _ _ _ Hm).
  destruct (spec_execute_cases w v dir template m true h)
    as [(e & _ & ->)|[(out & _ & _ & ->)|(out & e & _ & _ & ->)]];
    cbn [fst snd]; eexists _, _; (split; [reflexivity|]).
  - left. split; [reflexivity | discriminate].
  - right. reflexivity.
  - right. reflexivity.
Qed.

(** X13.  The subprocesses that [create] and [checkout] start are fixed by
    their arguments.  [create] starts, in this order and stopping at the
    first failure, the tool with the expanded tokens of the create template
    in "." and, for a non-empty commit, the tool with the expanded tokens
    of the checkout template in the new directory; [checkout] starts at
    most the tool in the directory, with the expanded tokens of the checkout
    template for a non-empty commit and of the update template otherwise. *)
Theorem driver_commands (w : World) (v : vcsCmd) (dir repo version : string) h :
  let tag := (parseVersion v version).1 in
  let commit := (parseVersion v version).2 in
  let command (dir template : string) (m : gmap string string) :=
    {| Name := cmd v; Args := expand m <$> strings.Fields template;
       Dir := dir; Env := envForDir dir |} in
  let clone :=
    command "." (createCmd v)
      {[ "dir" := dir; "repo" := repo; "branch" := tag ]} in
  let pin := command dir (checkoutCmd v) {[ "version" := commit ]} in
  let update := command dir (downloadCmd v) {[ "tag" := tag ]} in
  (∃ l, spawned (exec w (create v dir repo version) h).2 = spawned h ++ l
        ∧ l `prefix_of` (clone :: if decide (commit = "") then [] else [pin]))
  ∧ (∃ l, spawned (exec w (checkout v dir version) h).2 = spawned h ++ l
          ∧ l `prefix_of` [if decide (commit = "") then update else pin]).
Proof.
  cbv zeta. rewrite exec_create_run, exec_checkout_run.
  destruct (parseVersion v version) as [tag commit]. cbn [fst snd]. split.
  - destruct (run_spawned w v "." (createCmd v) _ _ h
                (pairing_create dir repo tag))
      as (err1 & t1 & -> & H1).
    destruct err1 as [e|].
    + exists (spawned t1). cbn [snd]. split; [apply spawned_app|].
      destruct H1 as [[-> _]| ->]; [apply prefix_nil|].
      apply prefix_cons, prefix_nil.
    + destruct H1 as [[_ H]| H1]; [destruct H; reflexivity|].
      destruct (decide (commit = "")) as [Hc|Hc].
      * exists (spawned t1). cbn [snd]. split; [apply spawned_app|].
        rewrite H1. reflexivity.
      * destruct (run_spawned w v dir (checkoutCmd v) _ _ (h ++ t1)
                    (pairing_single "version" commit))
          as (err2 & t2 & -> & H2).
        exists (spawned t1 ++ spawned t2). cbn [snd].
        split; [rewrite !spawned_app, app_assoc; reflexivity|].
        rewrite H1. apply prefix_cons.
        destruct H2 as [[-> _]| ->]; [apply prefix_nil | reflexivity].
  - destruct (decide (commit = "")) as [Hc|Hc];
      match goal with
      | |- context [exec w (run v dir ?tpl [?k; ?x]) h] =>
          destruct (run_spawned w v dir tpl [k; x] _ h (pairing_single k x))
            as (err & t & -> & H)
      end;
      exists (spawned t); cbn [snd]; (split; [apply spawned_app|]);
      (destruct H as [[-> _]| ->]; [apply prefix_nil | reflexivity]).
Qed.

End Driver.

(** ** The scenarios of the design document, with Git

    Run with the modelled [expand] in the sample worlds of [Model]. *)

Example Fields_createCmd :
  strings.Fields (createCmd vcsGit)
  = ["clone"; "{repo}"; "{dir}"; "-b"; "{branch}"].
Proof. reflexivity. Qed.

Example Fields_white_space :
  strings.Fields ("  a" +:+ LF +:+ "b  c ") = ["a"; "b"; "c"].
Proof. vm_compute. reflexivity. Qed.

Example Fields_no_break_space :
  strings.Fields
    ("a" +:+ String (ascii_of_nat 194) (String (ascii_of_nat 160) "b"))
  = ["a"; "b"].
Proof. vm_compute. reflexivity. Qed.

Example vcsByCmd_git : vcsByCmd "git" = Some vcsGit ∧ vcsByCmd "hg" = None.
Proof. split; reflexivity. Qed.

Example create_tag :
  let r := exec Model.world_ok
             (create Model.expand Model.envForDir vcsGit "/tmp/w" "https://example.com/r.git" "v1.2.0") [] in
  r.1 = Returned None
  ∧ spawned r.2
    = [Command "git"
         ["clone"; "https://example.com/r.git"; "/tmp/w"; "-b"; "v1.2.0"]
         "." ["PWD=."]].
Proof. vm_compute. split; reflexivity. Qed.

Example create_sha :
  let r := exec Model.world_ok
             (create Model.expand Model.envForDir vcsGit "/tmp/w" "https://example.com/r.git" "sha:abc123") [] in
  r.1 = Returned None
  ∧ spawned r.2
    = [Command "git"
         ["clone"; "https://example.com/r.git"; "/tmp/w"; "-b"; "master"]
         "." ["PWD=."];
       Command "git" ["checkout"; "abc123"] "/tmp/w" ["PWD=/tmp/w"]].
Proof. vm_compute. split; reflexivity. Qed.

Example create_sha_clone_fails :
  let r := exec Model.world_failing
             (create Model.expand Model.envForDir vcsGit "/tmp/w" "https://example.com/r.git" "sha:abc123") [] in
  r.1 = Returned (Some (ExitError 128))
  ∧ spawned r.2
    = [Command "git"
         ["clone"; "https://example.com/r.git"; "/tmp/w"; "-b"; "master"]
         "." ["PWD=."]].
Proof. vm_compute. split; reflexivity. Qed.

Example checkout_sha :
  spawned (exec Model.world_ok (checkout Model.expand Model.envForDir vcsGit "/tmp/w" "sha:deadbeef") []).2
  = [Command "git" ["checkout"; "deadbeef"] "/tmp/w" ["PWD=/tmp/w"]].
Proof. vm_compute. reflexivity. Qed.

Example checkout_tag :
  spawned (exec Model.world_ok (checkout Model.expand Model.envForDir vcsGit "/tmp/w" "release-2") []).2
  = [Command "git" ["checkout"; "-f"; "tags/release-2"] "/tmp/w"
       ["PWD=/tmp/w"]].
Proof. vm_compute. reflexivity. Qed.

Example checkout_sha_empty :
  spawned (exec Model.world_ok (checkout Model.expand Model.envForDir vcsGit "/tmp/w" "sha:") []).2
  = [Command "git" ["checkout"; "-f"; "tags/master"] "/tmp/w" ["PWD=/tmp/w"]].
Proof. vm_compute. reflexivity. Qed.

Example run1_odd_keyval :
  exec Model.world_ok (run1 Model.expand Model.envForDir vcsGit "/tmp/w" "checkout {version}" ["version"] true) []
  = (Panicked "index out of range", []).
Proof. vm_compute. reflexivity. Qed.

Example exists_permission_denied :
  (exec Model.world_failing (exists_ Model.path_Join vcsGit "/tmp/w") []).1
  = Returned true.
Proof. reflexivity. Qed.

Example exists_absent :
  exec Model.world_no_tool (exists_ Model.path_Join vcsGit "/tmp/w") []
  = (Returned false, [Ev (os_Stat "/tmp/w/.git") (Some ErrNotExist)]).
Proof. reflexivity. Qed.

Example run1_failure_drops_output :
  (exec Model.world_failing
     (run1 Model.expand Model.envForDir vcsGit "/tmp/w" (checkoutCmd vcsGit) ["version"; "abc123"] true) []).1
  = Returned ([], Some (ExitError 128)).
Proof. vm_compute. reflexivity. Qed.

Example run1_failure_is_logged :
  (exec Model.world_failing
     (run1 Model.expand Model.envForDir vcsGit "/tmp/w" (checkoutCmd vcsGit) ["version"; "abc123"] true) []).2
  = [Ev (exec_LookPath "git") None;
     Ev (cmd_Run (Command "git" ["checkout"; "abc123"] "/tmp/w" ["PWD=/tmp/w"]))
        ([Byte.x66; Byte.x61; Byte.x74; Byte.x61; Byte.x6c],
         Some (ExitError 128));
     Ev (log_Printf ("# cd /tmp/w; git checkout abc123" +:+ LF)) tt;
     Ev (Stderr_Write [Byte.x66; Byte.x61; Byte.x74; Byte.x61; Byte.x6c]) tt].
Proof. vm_compute. reflexivity. Qed.

Example run1_success_returns_output :
  (exec Model.world_ok
     (run1 Model.expand Model.envForDir vcsGit "/tmp/w" (checkoutCmd vcsGit) ["version"; "abc123"] true) []).1
  = Returned ([Byte.x6f; Byte.x6b], None).
Proof. vm_compute. reflexivity. Qed.

(** ** Instances of the conditional theorems *)

Lemma parseVersion_tag_witness :
  parseVersion vcsGit "v1.2.0" = ("v1.2.0", "").
Proof.
  apply (parseVersion_tag vcsGit "v1.2.0").
  intros rest H. discriminate H.
Defined.

Lemma run1_one_argument_per_token_witness :
  ∃ c : Cmd,
    spawned (exec Model.world_ok
               (run1 Model.expand Model.envForDir vcsGit "." (createCmd vcsGit)
                  ["dir"; "/tmp/w"; "repo"; "https://x/y z.git";
                   "branch"; "master"] true) []).2 = [c]
    ∧ Args c = ["clone"; "https://x/y z.git"; "/tmp/w"; "-b"; "master"]
    ∧ length (Args c) = 5.
Proof.
  destruct (run1_one_argument_per_token Model.expand Model.envForDir
              Model.world_ok vcsGit "." (createCmd vcsGit)
              ["dir"; "/tmp/w"; "repo"; "https://x/y z.git";
               "branch"; "master"]
              {[ "dir" := "/tmp/w"; "repo" := "https://x/y z.git";
                 "branch" := "master" ]} true [])
    as (c & Hspawn & Hargs & Hlen & _).
  - reflexivity.
  - reflexivity.
  - exists c. split; [exact Hspawn|]. rewrite Hlen, Hargs.
    split; vm_compute; reflexivity.
Defined.

Lemma run1_tool_not_found_witness :
  exec Model.world_no_tool
    (run1 Model.expand Model.envForDir vcsGit "/tmp/w" (checkoutCmd vcsGit) ["version"; "abc123"] true) []
  = (Returned ([], Some ErrNotFound),
     [Ev (exec_LookPath "git") (Some ErrNotFound);
      Ev (log_Printf (missing_line vcsGit)) tt]).
Proof.
  apply (run1_tool_not_found Model.expand Model.envForDir Model.world_no_tool
           vcsGit "/tmp/w" (checkoutCmd vcsGit) ["version"; "abc123"] true []
           ErrNotFound); reflexivity.
Defined.

Lemma odd_keyval_panics_witness :
  exec Model.world_ok
    (run Model.expand Model.envForDir vcsGit "/tmp/w" (checkoutCmd vcsGit)
       ["version"]) []
  = (Panicked "index out of range", []).
Proof.
  apply (odd_keyval_panics Model.expand Model.envForDir Model.world_ok vcsGit
           "/tmp/w" (checkoutCmd vcsGit) ["version"] true []).
  reflexivity.
Defined.

Lemma driver_tool_not_found_witness :
  exec Model.world_no_tool
    (create Model.expand Model.envForDir vcsGit "/tmp/w"
       "https://example.com/r.git" "sha:abc123") []
  = (Returned (Some ErrNotFound),
     [Ev (exec_LookPath "git") (Some ErrNotFound);
      Ev (log_Printf (missing_line vcsGit)) tt]).
Proof.
  apply (driver_tool_not_found Model.expand Model.envForDir
           Model.world_no_tool vcsGit "/tmp/w" "https://example.com/r.git"
           "sha:abc123" [] ErrNotFound).
  reflexivity.
Defined.

Lemma create_sha_composes_witness :
  exec Model.world_ok
    (create Model.expand Model.envForDir vcsGit "/tmp/w"
       "https://example.com/r.git" "sha:abc123") []
  = match exec Model.world_ok
            (create Model.expand Model.envForDir vcsGit "/tmp/w"
               "https://example.com/r.git" "master") [] with
    | (Returned None, h1) =>
        exec Model.world_ok
          (checkout Model.expand Model.envForDir vcsGit "/tmp/w" "sha:abc123")
          h1
    | other => other
    end.
Proof.
  apply (create_sha_composes Model.expand Model.envForDir Model.world_ok
           vcsGit "/tmp/w" "https://example.com/r.git" "abc123" []).
  intros H. discriminate H.
Defined.

(** ** Further runs *)

Example pairing_duplicate_key :
  pairing ["k"; "a"; "other"; "x"; "k"; "b"]
  = Ret {[ "k" := "b"; "other" := "x" ]}.
Proof. vm_compute. reflexivity. Qed.

Example runVerboseOnly_failure_is_silent :
  let r := exec Model.world_failing
             (runVerboseOnly Model.expand Model.envForDir vcsGit "/tmp/w"
                (checkoutCmd vcsGit) ["version"; "abc123"]) [] in
  r.1 = Returned (Some (ExitError 128))
  ∧ log_lines r.2 = [] ∧ stderr_writes r.2 = [].
Proof. vm_compute. repeat split; reflexivity. Qed.

Example run_failure_is_reported :
  let r := exec Model.world_failing
             (run Model.expand Model.envForDir vcsGit "/tmp/w"
                (checkoutCmd vcsGit) ["version"; "abc123"]) [] in
  r.1 = Returned (Some (ExitError 128))
  ∧ log_lines r.2 = ["# cd /tmp/w; git checkout abc123" +:+ LF]
  ∧ stderr_writes r.2 = [[Byte.x66; Byte.x61; Byte.x74; Byte.x61; Byte.x6c]].
Proof. vm_compute. repeat split; reflexivity. Qed.
